(** * Embedding retrieval and frozen-encoder fine-tuning of the SSL tutorial

    A shallow embedding of the executable cells of
    [Notebook_5_CLIP_and_Multimodal_Self_Supervision.ipynb] (the
    normalisation of the features and the retrieval by [argmax]), of
    [Notebook_6_Advanced_Applications_and_Conclusion.ipynb] (the FAISS
    search engine of section 6.2, the frozen-backbone training loop of
    section 6.1 and the figures it prints) and of
    [Notebook_4_Masked_Modeling.ipynb] (the patch count and the random mask
    of the masked-autoencoder cell).

    Conventions.
    - The tensors of the notebooks hold float32 values.  Where a cell
      computes new values by multiplication, addition, square root and
      division (the normalisation [v / v.norm()]), the arithmetic is IEEE 754
      binary32 with its signed zeros, infinities, nan and rounding to nearest
      even ([Float32], [Torch32]); torch raises nothing there.
    - Where a cell ranks values that are already there ([index.search],
      [argmax]), a tensor whose entries are numbers (no nan, no infinity) is
      read as the list of the reals they denote ([R]): the comparison of two
      such floats is the comparison of the reals.  The inner products of the
      index are taken exactly; what is proved of them is where they come
      from and how they are ordered.
    - A one-dimensional tensor is a list, a two-dimensional one a list of
      rows.
    - A Python exception ends the cell: an operation that can raise returns a
      [result].
    - The notebooks call torch and faiss and define no function of their
      own.  A library call is modelled by what the library documents for it:
      [IndexFlatIP] is the exact inner-product index whose labels are the
      positions of the vectors in insertion order, its [search] answers
      every query with [k] labels by decreasing inner product and the label
      -1 where it has no neighbour left, its Python wrapper asserts the
      dimension of each array it is given; [argmax] returns the first of
      several maximal entries. *)

From Stdlib Require Import Reals Lra Lia ZArith List Permutation Sorted.
From Stdlib Require Import Floats.SpecFloat.
From stdpp Require Import gmap sorting.
Import ListNotations.

(** The ways in which the modelled calls stop a cell. *)
Inductive error : Type :=
| DimensionMismatch   (* faiss: [assert d == self.d] in [add] and [search] *)
| NonPositiveK        (* faiss: [assert k > 0] in [search] *)
| EmptyReduction      (* torch: [argmax] of a tensor without elements *)
| DivisionByZero.     (* Python: [ZeroDivisionError] of [//] and [/] on numbers *)

Inductive result (A : Type) : Type :=
| Ok (a : A)
| Err (e : error).
Arguments Ok {A} a.
Arguments Err {A} e.

Definition bind {A B : Type} (r : result A) (f : A -> result B) : result B :=
  match r with
  | Ok a => f a
  | Err e => Err e
  end.

Notation "x <- r ;; k" := (bind r (fun x => k))
  (at level 100, r at next level, right associativity).

(** ** The float32 values of a tensor *)
Module Float32.

(** IEEE 754 binary32: 24 bits of precision, exponents below 128.  A value is
    a signed zero, a signed infinity, nan, or a finite number
    [(-1)^s * m * 2^e]. *)
Definition float32 : Type := spec_float.
Definition prec : Z := 24.
Definition emax : Z := 128.

Definition zero : float32 := S754_zero false.
Definition inf : float32 := S754_infinity false.
Definition nan : float32 := S754_nan.

(** The operations, each rounded to the nearest float32, ties to even. *)
Definition add : float32 -> float32 -> float32 := SFadd prec emax.
Definition mul : float32 -> float32 -> float32 := SFmul prec emax.
Definition div : float32 -> float32 -> float32 := SFdiv prec emax.
Definition sqrt : float32 -> float32 := SFsqrt prec emax.
Definition ltb : float32 -> float32 -> bool := SFltb.

(** The float32 nearest to an integer, and to a power of two. *)
Definition of_Z (z : Z) : float32 := binary_normalize prec emax z 0 false.
Definition pow2 (e : Z) : float32 := binary_normalize prec emax 1 e false.
Definition one : float32 := of_Z 1.

Definition is_zero (x : float32) : bool :=
  match x with
  | S754_zero _ => true
  | _ => false
  end.

Definition is_nan (x : float32) : bool :=
  match x with
  | S754_nan => true
  | _ => false
  end.

(** A number: neither nan nor an infinity. *)
Definition is_number (x : float32) : bool :=
  match x with
  | S754_zero _ | S754_finite _ _ _ => true
  | _ => false
  end.

(** +0, a positive number or +inf. *)
Definition nonneg (x : float32) : bool :=
  match x with
  | S754_zero false | S754_infinity false | S754_finite false _ _ => true
  | _ => false
  end.

End Float32.

(** ** Tensor operations on numbers *)
Module Torch.
Local Open Scope R_scope.

(** Inner product of two vectors, one entry of [A @ B.T]. *)
Fixpoint dot (u v : list R) : R :=
  match u, v with
  | x :: u', y :: v' => x * y + dot u' v'
  | _, _ => 0
  end.

(** Index of the running maximum: [argmax_from i besti best l] scans [l],
    whose first entry has index [i], and replaces the best index [besti]
    only by that of an entry strictly larger than [best], so the first of
    several maximal entries wins. *)
Fixpoint argmax_from (i besti : nat) (best : R) (l : list R) : nat :=
  match l with
  | [] => besti
  | x :: l' =>
      if Rlt_dec best x then argmax_from (S i) i x l'
      else argmax_from (S i) besti best l'
  end.

(** [t.argmax().item()]: the index of the first maximal entry; it raises on
    a tensor without elements. *)
Definition argmax (l : list R) : result nat :=
  match l with
  | [] => Err EmptyReduction
  | x :: l' => Ok (argmax_from 1 0 x l')
  end.

End Torch.

(** ** The normalisation of a feature vector, in float32 *)
Module Torch32.

(** [t.sum()]: the entries added up, each partial sum rounded.  The order
    of the additions is the kernel's; the model adds from left to right,
    starting from +0. *)
Definition sum (l : list Float32.float32) : Float32.float32 :=
  fold_left Float32.add l Float32.zero.

(** [v.norm()], and [M.norm(p=2, dim=-1, keepdim=True)] on one row of [M]:
    the square root of the sum of the squares of the entries. *)
Definition norm (v : list Float32.float32) : Float32.float32 :=
  Float32.sqrt (sum (map (fun x => Float32.mul x x) v)).

(** [v / c] for a one-element tensor [c]: every entry divided by [c].
    Nothing guards the divisor and nothing is raised: the quotient of two
    zeros is nan, that of another number and a zero an infinity. *)
Definition div (v : list Float32.float32) (c : Float32.float32)
  : list Float32.float32 :=
  map (fun x => Float32.div x c) v.

(** [v / v.norm()]: the normalisation every cell applies to its features
    (Notebook 5, lines 148-149 and 256-257; Notebook 6, lines 133, 234 and
    236). *)
Definition normalize (v : list Float32.float32) : list Float32.float32 :=
  div v (norm v).

(** One entry of [A @ B.T]: the inner product of two rows. *)
Definition dot (u v : list Float32.float32) : Float32.float32 :=
  sum (zip_with Float32.mul u v).

End Torch32.

(** ** The flat inner-product index *)
Module Faiss.
Local Open Scope R_scope.

(** [faiss.IndexFlatIP]: the dimension [d] fixed at construction and the
    stored vectors [xb] in insertion order; [ntotal] is their number.  The
    label of a stored vector is its position, counted from 0. *)
Record IndexFlatIP : Type := {
  d : nat;
  xb : list (list R)
}.

(** [faiss.IndexFlatIP(d)] *)
Definition new (dim : nat) : IndexFlatIP := {| d := dim; xb := [] |}.

Definition ntotal (index : IndexFlatIP) : nat := length (xb index).

(** [index.add(x)] for an array [x] of shape [n, d']: the wrapper asserts
    [d' == self.d] and only then appends the [n] rows.  The call is run on
    the index it mutates and gives back that index with the outcome. *)
Definition add (x : list (list R)) (index : IndexFlatIP)
  : result unit * IndexFlatIP :=
  if forallb (fun row => Nat.eqb (length row) (d index)) x
  then (Ok tt, {| d := d index; xb := xb index ++ x |})
  else (Err DimensionMismatch, index).

(** Any run of [add] calls on one index object: a call that raises leaves
    the object to the calls after it. *)
Definition add_all (batches : list (list (list R))) (index : IndexFlatIP)
  : IndexFlatIP :=
  fold_left (fun index' x => snd (add x index')) batches index.

(** The largest float32: [search] fills the slots it has no neighbour for
    with the label [-1] and the distance [-FLT_MAX]. *)
Definition FLT_MAX : R := (2 - / 2 ^ 23) * 2 ^ 127.
Definition filler : Z * R := ((-1)%Z, - FLT_MAX).

(** Label and inner product of every stored vector against the query. *)
Definition scores (index : IndexFlatIP) (q : list R) : list (Z * R) :=
  imap (fun i x => (Z.of_nat i, Torch.dot q x)) (xb index).

Section Ranking.
(** The library lists neighbours by decreasing inner product and does not
    say in which order it lists equal ones: [tie i j] stands for its
    choice to list label [i] before label [j]. *)
Variable tie : Z -> Z -> bool.

Definition before (a b : Z * R) : bool :=
  if Rlt_dec (snd b) (snd a) then true
  else if Rlt_dec (snd a) (snd b) then false
  else tie (fst a) (fst b).

Fixpoint place (a : Z * R) (l : list (Z * R)) : list (Z * R) :=
  match l with
  | [] => [a]
  | b :: l' => if before a b then a :: b :: l' else b :: place a l'
  end.

(** The exhaustive ranking of a flat index: every stored vector, best
    first.  The library keeps the [k] best of its scan in a heap; ranking
    all and cutting after [k] gives the same slots up to the order of equal
    inner products, which [tie] leaves open. *)
Definition ranked (l : list (Z * R)) : list (Z * R) := foldr place [] l.

(** The [k] slots of one query: the [k] best neighbours, then fillers. *)
Definition slots (index : IndexFlatIP) (q : list R) (k : nat) : list (Z * R) :=
  let hits := take k (ranked (scores index q)) in
  hits ++ replicate (k - length hits) filler.

(** [D, I = index.search(x, k)] for an array [x] of one row [q]: the row
    [D[0]] of inner products and the row [I[0]] of labels.  The wrapper
    asserts [d == self.d] and [k > 0] before it searches. *)
Definition search (index : IndexFlatIP) (q : list R) (k : Z)
  : result (list R * list Z) :=
  if negb (Nat.eqb (length q) (d index)) then Err DimensionMismatch
  else if negb (0 <? k)%Z then Err NonPositiveK
  else
    let s := slots index q (Z.to_nat k) in
    Ok (map snd s, map fst s).
End Ranking.

(** Best first: no later entry has a larger score. *)
Definition descending : list (Z * R) -> Prop :=
  StronglySorted (fun a b => snd b <= snd a).



End Faiss.

(** ** Notebook 6, section 6.2: the embedding search engine *)
Module Notebook6.
Local Open Scope R_scope.





End Notebook6.

(** ** Notebook 6, section 6.1: training a head on the frozen encoder *)

(** What the training cells use of torch without fixing it: the tensors and
    the numeric steps on them. *)
Class Autograd : Type := {
  Tensor : Type;
  Images : Type;
  Labels : Type;
  Feats : Type;
  OptState : Type;                    (* Adam's moment estimates and step counts *)
  (** [image_encoder(images)] from the encoder's weights *)
  encoder_forward : list Tensor -> Images -> Feats;
  (** gradient of [criterion(classifier(feats), labels)] in weight and bias *)
  head_grad : Tensor -> Tensor -> Feats -> Labels -> Tensor * Tensor;
  (** [+] on gradients, for accumulation into [.grad] *)
  tensor_add : Tensor -> Tensor -> Tensor;
  (** Adam's update of the parameter with the given identity *)
  adam_update : OptState -> nat -> Tensor -> Tensor -> Tensor * OptState
}.

Module FineTune.
Section Cells.
Context `{Autograd}.

(** An [nn.Parameter]. *)
Record parameter : Type := {
  data : Tensor;
  requires_grad : bool;
  grad : option Tensor
}.

(** The interpreter state of the two cells.  Parameters are shared
    objects: the store maps the identity of each to its current value, and
    modules and the optimizer hold identities. *)
Record session : Type := {
  store : gmap nat parameter;
  image_encoder : list nat;          (* image_encoder.parameters() *)
  classifier : nat * nat;            (* classifier.weight, classifier.bias *)
  param_groups : list nat;           (* the parameters given to Adam *)
  opt_state : OptState
}.

Definition set_requires_grad (b : bool) (p : parameter) : parameter :=
  {| data := data p; requires_grad := b; grad := grad p |}.

(** [for param in image_encoder.parameters(): param.requires_grad = False] *)
Definition freeze (ps : list nat) (h : gmap nat parameter) : gmap nat parameter :=
  foldr (fun p h' => alter (set_requires_grad false) p h') h ps.

Definition fresh_parameter (x : Tensor) : parameter :=
  {| data := x; requires_grad := true; grad := None |}.

(** [nn.Linear(...)]: two new parameters with initial values [w0], [b0]. *)
Definition Linear (w0 b0 : Tensor) (h : gmap nat parameter)
  : (nat * nat) * gmap nat parameter :=
  let w := fresh (dom h) in
  let h1 := <[w := fresh_parameter w0]> h in
  let b := fresh (dom h1) in
  ((w, b), <[b := fresh_parameter b0]> h1).

(** The first cell (lines 41-52) run on a store that holds the encoder:
    the encoder's parameters are frozen, the head is created and Adam
    receives [classifier.parameters()].  [image_encoder.eval()] switches
    layers to their inference behaviour and assigns no parameter. *)
Definition setup (h : gmap nat parameter) (encoder : list nat)
    (w0 b0 : Tensor) (os : OptState) : session :=
  let h1 := freeze encoder h in
  let '((w, b), h2) := Linear w0 b0 h1 in
  {| store := h2; image_encoder := encoder; classifier := (w, b);
     param_groups := [w; b]; opt_state := os |}.

(** The optimizer holds the classifier's two parameters and nothing else. *)
Definition optimizes_head (s : session) : Prop :=
  param_groups s = [fst (classifier s); snd (classifier s)].

(** [optimizer.zero_grad()] *)
Definition zero_grad (ps : list nat) (h : gmap nat parameter) : gmap nat parameter :=
  foldr (fun p h' =>
           alter (fun x => {| data := data x; requires_grad := requires_grad x;
                              grad := None |}) p h') h ps.

Definition accumulate (g : Tensor) (p : parameter) : parameter :=
  if requires_grad p
  then {| data := data p; requires_grad := true;
          grad := Some (match grad p with
                        | Some g0 => tensor_add g0 g
                        | None => g
                        end) |}
  else p.

(** [loss.backward()]: the gradient of every leaf of the loss's graph is
    added to the leaf's [.grad], for the leaves that require one. *)
Definition backward (leaves : list (nat * Tensor)) (h : gmap nat parameter)
  : gmap nat parameter :=
  foldr (fun l h' => alter (accumulate (snd l)) (fst l) h') h leaves.

(** [optimizer.step()]: every parameter of the optimizer that holds a
    gradient is updated in place. *)
Definition step_one (acc : gmap nat parameter * OptState) (p : nat)
  : gmap nat parameter * OptState :=
  match fst acc !! p with
  | Some x =>
      match grad x with
      | Some g =>
          let '(x', os') := adam_update (snd acc) p (data x) g in
          (<[p := {| data := x'; requires_grad := requires_grad x;
                     grad := grad x |}]> (fst acc), os')
      | None => acc
      end
  | None => acc
  end.

Definition step (ps : list nat) (h : gmap nat parameter) (os : OptState)
  : gmap nat parameter * OptState :=
  fold_left step_one ps (h, os).

(** The body of the inner loop (lines 74-83).  The encoder runs under
    [torch.no_grad()], so [feats] is a constant of the loss's graph, whose
    leaves are the classifier's weight and bias.  The head's parameters are
    in the store from [nn.Linear] on; a session without them has nothing to
    train and is left as it is. *)
Definition train_step (s : session) (batch : Images * Labels) : session :=
  let h := store s in
  let '(w, b) := classifier s in
  let feats :=
    encoder_forward (omap (fun p => data <$> h !! p) (image_encoder s)) (fst batch) in
  match h !! w, h !! b with
  | Some pw, Some pb =>
      let '(gw, gb) := head_grad (data pw) (data pb) feats (snd batch) in
      let h1 := zero_grad (param_groups s) h in
      let h2 := backward [(w, gw); (b, gb)] h1 in
      let '(h3, os) := step (param_groups s) h2 (opt_state s) in
      {| store := h3; image_encoder := image_encoder s;
         classifier := classifier s; param_groups := param_groups s;
         opt_state := os |}
  | _, _ => s
  end.

(** One pass over [train_loader].  The rest of the epoch (lines 84-97)
    evaluates under [torch.no_grad()] and prints: it binds no parameter. *)
Definition train_epoch (loader : list (Images * Labels)) (s : session) : session :=
  fold_left train_step loader s.

(** [for epoch in range(epochs)]; the notebook has [epochs = 10]. *)
Definition train (epochs : nat) (loader : list (Images * Labels)) (s : session)
  : session :=
  Nat.iter epochs (train_epoch loader) s.
End Cells.
End FineTune.

(** ** Sums of numbers *)
Module TorchOps.
Local Open Scope R_scope.

Definition sum (l : list R) : R := fold_right Rplus 0 l.

End TorchOps.

(** ** Notebook 4: the masked-autoencoder cell *)
Module Notebook4.
Local Open Scope Z_scope.

(** Python's [a // b] on integers: the floor of the quotient, and a
    [ZeroDivisionError] for [b = 0]. *)
Definition floordiv (a b : Z) : result Z :=
  if Z.eqb b 0 then Err DivisionByZero else Ok (a / b).

(** [num_patches = (image_size // patch_size) ** 2] *)
Definition num_patches (image_size patch_size : Z) : result Z :=
  per_side <- floordiv image_size patch_size ;;
  Ok (per_side ^ 2).

(** [mask = torch.rand(num_patches) < 0.75], on the uniform samples that
    [torch.rand] drew: a patch is masked when its sample is below 0.75. *)
Definition random_mask (samples : list R) : list bool :=
  map (fun u => if Rlt_dec u (3 / 4)%R then true else false) samples.

(** The number of masked patches. *)
Definition masked (mask : list bool) : nat := count_occ Bool.bool_dec mask true.

End Notebook4.

(** ** Notebook 6: the figures an epoch prints *)
Module Metrics.
Local Open Scope R_scope.






End Metrics.

(** ** Sample data *)
Module Samples.
Local Open Scope R_scope.

(** Three rows of dimension 2 and a query along the first axis. *)
Definition gallery3 : list (list R) := [[1; 0]; [0; 1]; [1; 1]].
(** The indexes of dimension 2 that [add] builds from the three rows and
    from the first row alone. *)
Definition index3 : Faiss.IndexFlatIP := snd (Faiss.add gallery3 (Faiss.new 2)).
Definition index1 : Faiss.IndexFlatIP := snd (Faiss.add [[1; 0]] (Faiss.new 2)).
Definition query10 : list R := [1; 0].



(** An order that lists the smaller label first. *)
Definition lower_first : Z -> Z -> bool := Z.ltb.


End Samples.

(** ** Sample vectors in float32 *)
Module FloatSamples.

(** The all-zero vector; a vector whose only nonzero entry is [2^-100], the
    square of which is below the smallest float32; the vector (1, 4). *)
Definition zeros : list Float32.float32 := [Float32.zero; Float32.zero].
Definition tiny : list Float32.float32 := [Float32.pow2 (-100); Float32.zero].
Definition v14 : list Float32.float32 := [Float32.of_Z 1; Float32.of_Z 4].

End FloatSamples.

(** ** A scalar instance of the training cells *)
Module ToyTraining.

(** Tensors are integers: the encoder multiplies the image by the sum of
    its weights, the head is [w * f + b] under a squared error, and the
    optimizer subtracts the gradient and counts its updates. *)
Definition toy : Autograd := {|
  Tensor := Z;
  Images := Z;
  Labels := Z;
  Feats := Z;
  OptState := nat;
  encoder_forward := fun ws x => (foldr Z.add 0 ws * x)%Z;
  head_grad := fun w b f y => (((w * f + b - y) * f)%Z, (w * f + b - y)%Z);
  tensor_add := Z.add;
  adam_update := fun os _ x g => ((x - g)%Z, S os)
|}.

(** An encoder of two weights, 3 and 4, both still trainable. *)
Definition encoder_store : gmap nat (@FineTune.parameter toy) :=
  <[0%nat := @FineTune.fresh_parameter toy 3%Z]>
    (<[1%nat := @FineTune.fresh_parameter toy 4%Z]> ∅).
Definition encoder_ids : list nat := [0%nat; 1%nat].
Definition loader : list (Z * Z) := [(1%Z, 2%Z); (2%Z, 1%Z)].

End ToyTraining.

(** * Properties *)

(** ** The first maximal entry *)
Module TorchFacts.
Import Torch.
Local Open Scope R_scope.

(** The scan keeps the earliest entry that no other entry exceeds. *)
Lemma argmax_from_first_max (l : list R) (i besti : nat) (best : R) :
  (argmax_from i besti best l = besti /\ Forall (fun y => y <= best) l) \/
  (exists x, (i <= argmax_from i besti best l)%nat /\
             l !! (argmax_from i besti best l - i)%nat = Some x /\
             best < x /\
             Forall (fun y => y <= x) l /\
             forall j y, (j < argmax_from i besti best l - i)%nat ->
                         l !! j = Some y -> y < x).
Proof.
  revert i besti best. induction l as [|x l IH]; intros i besti best; simpl.
  - left. split; [reflexivity | constructor].
  - destruct (Rlt_dec best x) as [Hlt|Hge].
    + right. destruct (IH (S i) i x) as [[Hr Hall]|(x' & Hi & Hx' & Hlt' & Hall & Hbefore)].
      * exists x. rewrite Hr, Nat.sub_diag. simpl.
        repeat split; try lia; try assumption.
        constructor; [lra | exact Hall].
      * exists x'. set (r := argmax_from (S i) i x l) in *.
        replace (r - i)%nat with (S (r - S i)) by lia. simpl.
        repeat split; try lia; try assumption; try lra.
        -- constructor; [lra | exact Hall].
        -- intros [|j] y Hj Hy; simpl in Hy.
           ++ injection Hy as <-. exact Hlt'.
           ++ apply (Hbefore j y); [lia | exact Hy].
    + destruct (IH (S i) besti best) as [[Hr Hall]|(x' & Hi & Hx' & Hlt' & Hall & Hbefore)].
      * left. split; [exact Hr|]. constructor; [lra | exact Hall].
      * right. exists x'. set (r := argmax_from (S i) besti best l) in *.
        replace (r - i)%nat with (S (r - S i)) by lia. simpl.
        repeat split; try lia; try assumption.
        -- constructor; [lra | exact Hall].
        -- intros [|j] y Hj Hy; simpl in Hy.
           ++ injection Hy as <-. lra.
           ++ apply (Hbefore j y); [lia | exact Hy].
Qed.

Lemma argmax_first_max (sims : list R) (i : nat) :
  argmax sims = Ok i ->
  exists x, sims !! i = Some x /\
            (forall j y, sims !! j = Some y -> y <= x) /\
            (forall j y, (j < i)%nat -> sims !! j = Some y -> y < x).
Proof.
  destruct sims as [|x0 l]; simpl; [discriminate|].
  intros Hok. injection Hok as <-.
  destruct (argmax_from_first_max l 1 0 x0)
    as [[Hr Hall]|(x' & Hi & Hx' & Hlt' & Hall & Hbefore)].
  - exists x0. rewrite Hr. simpl. split; [reflexivity|]. split.
    + intros [|j] y Hy; simpl in Hy.
      * injection Hy as <-. lra.
      * rewrite Forall_forall in Hall. apply Hall.
        apply list_elem_of_lookup. eauto.
    + intros j y Hj. lia.
  - exists x'. set (r := argmax_from 1 0 x0 l) in *.
    destruct r as [|r]; [lia|]. simpl in *.
    rewrite Nat.sub_0_r in Hx', Hbefore.
    split; [exact Hx'|]. split.
    + intros [|j] y Hy; simpl in Hy.
      * injection Hy as <-. lra.
      * rewrite Forall_forall in Hall. apply Hall.
        apply list_elem_of_lookup. eauto.
    + intros [|j] y Hj Hy; simpl in Hy.
      * injection Hy as <-. exact Hlt'.
      * apply (Hbefore j y); [lia | exact Hy].
Qed.

(** X18. [argmax] of a tensor of numbers: it raises exactly on the tensor
    without elements; otherwise it returns a position of the tensor whose
    entry no entry exceeds and which every earlier entry stays strictly
    below, so of several maximal entries the first one is reported. *)
Theorem argmax_lowest_maximal (sims : list R) :
  (sims = [] -> argmax sims = Err EmptyReduction) /\
  (sims <> [] ->
   exists i x, argmax sims = Ok i /\ sims !! i = Some x /\
     (forall j y, sims !! j = Some y -> y <= x) /\
     (forall j y, (j < i)%nat -> sims !! j = Some y -> y < x)).
Proof.
  split.
  - intros ->. reflexivity.
  - intros Hne. destruct sims as [|x0 l] eqn:Hs; [contradiction|].
    rewrite <- Hs. assert (Hok : argmax sims = Ok (argmax_from 1 0 x0 l))
      by (rewrite Hs; reflexivity).
    destruct (argmax_first_max sims _ Hok) as (x & Hx & Hmax & Hfirst).
    exists (argmax_from 1 0 x0 l), x. auto.
Qed.

(** Two images tie for the best similarity: the first of the two is
    reported. *)
Lemma argmax_lowest_maximal_witness :
  exists i x, argmax [1; 3; 3; 2] = Ok i /\ [1; 3; 3; 2] !! i = Some x /\
    (forall j y, [1; 3; 3; 2] !! j = Some y -> y <= x) /\
    (forall j y, (j < i)%nat -> [1; 3; 3; 2] !! j = Some y -> y < x).
Proof.
  apply (proj2 (argmax_lowest_maximal [1; 3; 3; 2])). discriminate.
Defined.

End TorchFacts.

(** ** float32 arithmetic: signs and nan *)
Module Float32Facts.
Import Float32.
Local Open Scope Z_scope.

Lemma shr_1_nonneg (mrs : shr_record) : 0 <= shr_m mrs -> 0 <= shr_m (shr_1 mrs).
Proof.
  destruct mrs as [m r s]. simpl. intros Hm.
  destruct m as [|[p|p|]|p]; simpl; lia.
Qed.

Lemma iter_shr_1_nonneg (p : positive) (mrs : shr_record) :
  0 <= shr_m mrs -> 0 <= shr_m (SpecFloat.iter_pos shr_1 p mrs).
Proof.
  revert mrs. induction p as [p IH|p IH|]; intros mrs Hm; simpl.
  - apply IH, IH, shr_1_nonneg, Hm.
  - apply IH, IH, Hm.
  - apply shr_1_nonneg, Hm.
Qed.

Lemma shr_fexp_nonneg (m e : Z) (l : location) :
  0 <= m -> 0 <= shr_m (fst (shr_fexp prec emax m e l)).
Proof.
  intros Hm. unfold shr_fexp, shr.
  assert (H0 : 0 <= shr_m (shr_record_of_loc m l))
    by (destruct l as [|[]]; exact Hm).
  destruct (fexp prec emax (Zdigits2 m + e) - e); simpl;
    [exact H0 | apply iter_shr_1_nonneg, H0 | exact H0].
Qed.

Lemma round_nearest_even_nonneg (m : Z) (l : location) :
  0 <= m -> 0 <= round_nearest_even m l.
Proof.
  intros Hm. destruct l as [|[]]; simpl; try lia.
  destruct (Z.even m); lia.
Qed.

(** Rounding a non-negative mantissa gives no nan, and with the sign + a
    value that is not negative. *)
Lemma binary_round_aux_sign (s : bool) (m e : Z) (l : location) :
  0 <= m ->
  binary_round_aux prec emax s m e l <> S754_nan /\
  (s = false -> nonneg (binary_round_aux prec emax s m e l) = true).
Proof.
  intros Hm. unfold binary_round_aux.
  pose proof (shr_fexp_nonneg m e l Hm) as H1.
  destruct (shr_fexp prec emax m e l) as [mrs' e']. simpl in H1.
  pose proof (shr_fexp_nonneg
                (round_nearest_even (shr_m mrs') (loc_of_shr_record mrs')) e'
                loc_Exact (round_nearest_even_nonneg _ _ H1)) as H2.
  destruct (shr_fexp prec emax _ e' loc_Exact) as [mrs'' e'']. simpl in H2.
  destruct (shr_m mrs'') as [|p|p]; [| |lia].
  - split; [discriminate | intros ->; reflexivity].
  - destruct (e'' <=? emax - prec); (split; [discriminate | intros ->; reflexivity]).
Qed.

Lemma binary_round_sign (s : bool) (m : positive) (e : Z) :
  binary_round prec emax s m e <> S754_nan /\
  (s = false -> nonneg (binary_round prec emax s m e) = true).
Proof.
  unfold binary_round. destruct (shl_align m e _) as [mz ez].
  apply binary_round_aux_sign. lia.
Qed.

Lemma mul_self_nonneg (x : float32) :
  is_number x = true -> nonneg (mul x x) = true.
Proof.
  destruct x as [s|s| |s m e]; simpl; try discriminate; intros _.
  - destruct s; reflexivity.
  - unfold mul, SFmul. replace (xorb s s) with false by (destruct s; reflexivity).
    apply binary_round_aux_sign; [lia | reflexivity].
Qed.

Lemma add_nonneg (x y : float32) :
  nonneg x = true -> nonneg y = true -> nonneg (add x y) = true.
Proof.
  destruct x as [[]|[]| |[] mx ex]; simpl; try discriminate;
    destruct y as [[]|[]| |[] my ey]; simpl; try discriminate; intros _ _;
    try reflexivity.
  unfold add, SFadd. simpl.
  destruct (shl_align mx ex (Z.min ex ey)) as [m1 e1].
  destruct (shl_align my ey (Z.min ex ey)) as [m2 e2]. simpl.
  apply binary_round_sign. reflexivity.
Qed.

Lemma sqrt_nonneg (x : float32) : nonneg x = true -> nonneg (sqrt x) = true.
Proof.
  destruct x as [[]|[]| |[] m e]; simpl; try discriminate; intros _; try reflexivity.
  unfold sqrt, SFsqrt.
  destruct (SFsqrt_core_binary prec emax (Z.pos m) e) as [[mz ez] lz] eqn:Hcore.
  apply binary_round_aux_sign; [|reflexivity].
  unfold SFsqrt_core_binary in Hcore.
  set (m' := match _ - 2 * _ with Z.pos _ => _ | 0 => _ | Z.neg _ => _ end) in Hcore.
  pose proof (Z.sqrtrem_spec m') as Hs.
  destruct (Z.sqrtrem m') as [q r]. injection Hcore as <- _ _.
  assert (Hm' : 0 <= m').
  { unfold m'. destruct (e - 2 * _); try lia. apply Z.shiftl_nonneg. lia. }
  specialize (Hs Hm'). simpl in Hs. lia.
Qed.

(** A number divided by a number other than zero is no nan. *)
Lemma div_numbers_not_nan (x y : float32) :
  is_number x = true -> is_number y = true -> is_zero y = false ->
  is_nan (div x y) = false.
Proof.
  destruct x as [sx|sx| |sx mx ex]; simpl; try discriminate;
    destruct y as [sy|sy| |sy my ey]; simpl; try discriminate; intros _ _ _;
    try reflexivity.
  unfold div, SFdiv.
  destruct (SFdiv_core_binary prec emax (Z.pos mx) ex (Z.pos my) ey)
    as [[mz ez] lz] eqn:Hcore.
  assert (Hmz : 0 <= mz).
  { unfold SFdiv_core_binary in Hcore.
    set (m' := match _ - _ - _ with Z.pos _ => _ | 0 => _ | Z.neg _ => _ end) in Hcore.
    assert (Hm' : 0 <= m').
    { unfold m'. destruct (ex - ey - _); try lia. apply Z.shiftl_nonneg. lia. }
    pose proof (Z.div_eucl_eq m' (Z.pos my) ltac:(lia)) as Heq.
    pose proof (Z.mod_pos_bound m' (Z.pos my) ltac:(lia)) as Hmod.
    unfold Z.modulo in Hmod.
    destruct (Z.div_eucl m' (Z.pos my)) as [q r]. injection Hcore as <- _ _.
    nia. }
  destruct (binary_round_aux_sign (xorb sx sy) mz ez lz Hmz) as [Hnan _].
  destruct (binary_round_aux prec emax (xorb sx sy) mz ez lz);
    try reflexivity. contradiction.
Qed.

End Float32Facts.

(** ** Normalisation *)
Module NormalizeFacts.
Import Float32 Float32Facts Torch32 FloatSamples.

Lemma sum_zeros (l : list float32) :
  Forall (fun x => x = zero) l -> sum l = zero.
Proof.
  unfold sum. induction 1 as [|x l -> _ IH]; simpl; [reflexivity | exact IH].
Qed.

Lemma norm_zero_vector (v : list float32) :
  Forall (fun x => is_zero x = true) v -> norm v = zero.
Proof.
  intros Hv. unfold norm. rewrite sum_zeros; [reflexivity|].
  apply Forall_map. eapply Forall_impl; [exact Hv|].
  intros [[]| | |] Hx; simpl in Hx; try discriminate; reflexivity.
Qed.

Lemma fold_add_nonneg (l : list float32) (acc : float32) :
  nonneg acc = true -> Forall (fun x => nonneg x = true) l ->
  nonneg (fold_left Float32.add l acc) = true.
Proof.
  intros Hacc Hl. revert acc Hacc.
  induction Hl as [|x l Hx _ IH]; intros acc Hacc; simpl; [exact Hacc|].
  apply IH, add_nonneg; assumption.
Qed.

(** The norm of a vector of numbers is +0, a positive number or +inf. *)
Lemma norm_nonneg (v : list float32) :
  Forall (fun x => is_number x = true) v -> nonneg (norm v) = true.
Proof.
  intros Hv. unfold norm. apply sqrt_nonneg, fold_add_nonneg; [reflexivity|].
  apply Forall_map. eapply Forall_impl; [exact Hv|].
  intros x Hx. apply mul_self_nonneg, Hx.
Qed.

(** C9 (amended). Normalisation divides every entry of a vector by the
    vector's norm, with no guard on the norm, and raises nothing: the result
    has the length of the vector and its entry at each position is the
    float32 quotient of the vector's entry by the norm.  For the all-zero
    vector every entry of the result is nan.  For a vector of numbers
    exactly three things can happen: the norm is zero (the vector is zero
    or the squares of its entries are too small for float32) and no entry of
    the result is a number; or the norm is +inf (the squares are too large)
    and every entry of the result is a zero; or the norm is a number other
    than zero and no entry of the result is nan. *)
Theorem normalize_divides_unguarded (v : list float32) :
  length (normalize v) = length v /\
  (forall i x, v !! i = Some x ->
     normalize v !! i = Some (Float32.div x (norm v))) /\
  (Forall (fun x => is_zero x = true) v ->
     Forall (fun y => y = nan) (normalize v)) /\
  (Forall (fun x => is_number x = true) v ->
     (is_zero (norm v) = true /\
      Forall (fun y => is_number y = false) (normalize v)) \/
     (norm v = inf /\
      Forall (fun y => is_zero y = true) (normalize v)) \/
     (is_number (norm v) = true /\ is_zero (norm v) = false /\
      Forall (fun y => is_nan y = false) (normalize v))).
Proof.
  split; [apply length_map|]. split.
  { intros i x Hx. unfold normalize, div. rewrite list_lookup_fmap, Hx. reflexivity. }
  split.
  - intros Hv. unfold normalize, div. rewrite (norm_zero_vector v Hv).
    apply Forall_map. eapply Forall_impl; [exact Hv|].
    intros [[]| | |] Hx; simpl in Hx; try discriminate; reflexivity.
  - intros Hv. pose proof (norm_nonneg v Hv) as Hn.
    unfold normalize, div.
    destruct (norm v) as [[]|[]| |[] m e] eqn:Hnorm; simpl in Hn; try discriminate.
    + left. split; [reflexivity|].
      apply Forall_map. eapply Forall_impl; [exact Hv|].
      intros [| | |] Hx; simpl in Hx; try discriminate; reflexivity.
    + right. left. split; [reflexivity|].
      apply Forall_map. eapply Forall_impl; [exact Hv|].
      intros [| | |] Hx; simpl in Hx; try discriminate; reflexivity.
    + right. right. split; [reflexivity|]. split; [reflexivity|].
      apply Forall_map. eapply Forall_impl; [exact Hv|].
      intros x Hx. apply div_numbers_not_nan; [exact Hx | reflexivity | reflexivity].
Qed.

(** The amended claim at the vector (2^-100, 0), whose norm is zero in
    float32: no entry of what the normalisation returns is a number. *)
Lemma normalize_divides_unguarded_witness :
  (is_zero (norm tiny) = true /\
   Forall (fun y => is_number y = false) (normalize tiny)) \/
  (norm tiny = inf /\
   Forall (fun y => is_zero y = true) (normalize tiny)) \/
  (is_number (norm tiny) = true /\ is_zero (norm tiny) = false /\
   Forall (fun y => is_nan y = false) (normalize tiny)).
Proof.
  apply (proj2 (proj2 (proj2 (normalize_divides_unguarded tiny)))).
  repeat constructor.
Defined.

(** C9 as stated fails.  The all-zero vector reaches no error: its
    normalisation returns the vector (nan, nan).  The vector (2^-100, 0)
    has a nonzero entry and is normalised to (inf, nan), whose norm is nan,
    not 1.  The inner product of the normalisation of (1, 4) with itself is
    1 + 2^-23, above 1. *)
Lemma normalize_returns_nan_not_error :
  normalize zeros = [nan; nan] /\
  Exists (fun x => is_zero x = false) tiny /\
  normalize tiny = [inf; nan] /\
  norm (normalize tiny) = nan /\
  dot (normalize v14) (normalize v14) = Float32.add one (pow2 (-23)) /\
  Float32.ltb one (dot (normalize v14) (normalize v14)) = true.
Proof.
  split; [reflexivity|].
  split; [left; reflexivity|].
  repeat split; vm_compute; reflexivity.
Qed.

End NormalizeFacts.

(** ** The flat index: insertion and search *)
Module FaissFacts.
Import Torch Faiss.
Local Open Scope R_scope.

Lemma add_ok (x : list (list R)) (index : IndexFlatIP) :
  Forall (fun row => length row = d index) x ->
  add x index = (Ok tt, {| d := d index; xb := xb index ++ x |}).
Proof.
  intros Hall. unfold add.
  replace (forallb _ x) with true; [reflexivity|].
  symmetry. apply forallb_forall. intros row Hin.
  rewrite Forall_forall in Hall. apply Nat.eqb_eq, Hall.
  apply list_elem_of_In, Hin.
Qed.

Lemma add_rejects (x : list (list R)) (index : IndexFlatIP) :
  Exists (fun row => length row <> d index) x ->
  add x index = (Err DimensionMismatch, index).
Proof.
  intros Hex. unfold add.
  replace (forallb _ x) with false; [reflexivity|].
  symmetry. apply not_true_is_false. intros Hall.
  rewrite forallb_forall in Hall.
  apply Exists_exists in Hex as (row & Hin & Hlen).
  apply Hlen, Nat.eqb_eq, Hall, list_elem_of_In, Hin.
Qed.


Lemma length_scores (index : IndexFlatIP) (q : list R) :
  length (scores index q) = ntotal index.
Proof. unfold scores, ntotal. apply length_imap. Qed.



Section Ranking.
Variable tie : Z -> Z -> bool.

Lemma before_true (a b : Z * R) : before tie a b = true -> snd b <= snd a.
Proof.
  unfold before. destruct (Rlt_dec (snd b) (snd a)); [lra|].
  destruct (Rlt_dec (snd a) (snd b)); [discriminate | lra].
Qed.

Lemma before_false (a b : Z * R) : before tie a b = false -> snd a <= snd b.
Proof.
  unfold before. destruct (Rlt_dec (snd b) (snd a)); [discriminate | lra].
Qed.

Lemma place_perm (a : Z * R) (l : list (Z * R)) :
  Permutation (place tie a l) (a :: l).
Proof.
  induction l as [|b l IH]; simpl; [reflexivity|].
  destruct (before tie a b); [reflexivity|].
  rewrite IH. apply perm_swap.
Qed.

Lemma ranked_perm (l : list (Z * R)) : Permutation (ranked tie l) l.
Proof.
  induction l as [|a l IH]; simpl; [reflexivity|].
  rewrite place_perm. apply perm_skip, IH.
Qed.

Lemma place_descending (a : Z * R) (l : list (Z * R)) :
  descending l -> descending (place tie a l).
Proof.
  unfold descending. induction l as [|b l IH]; intros Hs; simpl.
  - repeat constructor.
  - inversion Hs as [|? ? Hl Hb]; subst.
    destruct (before tie a b) eqn:Hab.
    + apply before_true in Hab. constructor; [exact Hs|].
      constructor; [exact Hab|].
      eapply Forall_impl; [exact Hb|]. simpl. intros c Hc. lra.
    + apply before_false in Hab. constructor; [apply IH, Hl|].
      rewrite (place_perm a l). constructor; assumption.
Qed.

Lemma ranked_descending (l : list (Z * R)) : descending (ranked tie l).
Proof.
  induction l as [|a l IH]; simpl; [constructor | apply place_descending, IH].
Qed.

Lemma length_ranked (l : list (Z * R)) : length (ranked tie l) = length l.
Proof. apply Permutation_length, ranked_perm. Qed.



End Ranking.



Lemma search_ok (tie : Z -> Z -> bool) (index : IndexFlatIP) (q : list R) (k : Z) :
  length q = d index -> (1 <= k)%Z ->
  search tie index q k
  = Ok (map snd (slots tie index q (Z.to_nat k)),
        map fst (slots tie index q (Z.to_nat k))).
Proof.
  intros Hq Hk. unfold search.
  rewrite (proj2 (Nat.eqb_eq _ _) Hq). simpl.
  rewrite (proj2 (Z.ltb_lt 0 k)) by lia. reflexivity.
Qed.







Import Samples.













(** C3 (amended). An index without vectors is searched like any other: a
    query of another dimension is rejected by the dimension check, [k < 1]
    by the check of [k], and every other search returns, each of its [k]
    slots a filler.  No error is raised for the index being empty. *)
Theorem search_empty_index_fillers (tie : Z -> Z -> bool) (dim : nat)
    (q : list R) (k : Z) :
  search tie (new dim) q k
  = if negb (Nat.eqb (length q) dim) then Err DimensionMismatch
    else if (k <? 1)%Z then Err NonPositiveK
    else Ok (replicate (Z.to_nat k) (- FLT_MAX), replicate (Z.to_nat k) (-1)%Z).
Proof.
  destruct (Nat.eqb (length q) dim) eqn:Hq; simpl.
  - destruct (k <? 1)%Z eqn:Hk.
    + apply Z.ltb_lt in Hk. unfold search. simpl. rewrite Hq. simpl.
      rewrite (proj2 (Z.ltb_ge 0 k)) by lia. reflexivity.
    + apply Z.ltb_ge in Hk. apply Nat.eqb_eq in Hq.
      rewrite search_ok by assumption.
      unfold slots, scores, new, filler. simpl.
      rewrite take_nil. simpl. rewrite Nat.sub_0_r.
      f_equal. f_equal.
      * induction (Z.to_nat k) as [|n IH]; simpl; [reflexivity | f_equal; exact IH].
      * induction (Z.to_nat k) as [|n IH]; simpl; [reflexivity | f_equal; exact IH].
  - unfold search. simpl. rewrite Hq. reflexivity.
Qed.

(** C3 as stated fails: the search of an empty index of dimension 2 for one
    neighbour returns one filler instead of raising. *)
Lemma search_empty_index_returns :
  search lower_first (new 2) query10 1 = Ok ([- FLT_MAX], [(-1)%Z]).
Proof.
  rewrite search_ok by (reflexivity || lia). reflexivity.
Qed.


Lemma add_keeps_dimension (x : list (list R)) (index : IndexFlatIP) :
  Forall (fun row => length row = d index) (xb index) ->
  d (snd (add x index)) = d index /\
  Forall (fun row => length row = d index) (xb (snd (add x index))).
Proof.
  intros Hinv. unfold add.
  destruct (forallb _ x) eqn:Hx; simpl; split; try reflexivity; [|exact Hinv].
  apply Forall_app. split; [exact Hinv|].
  apply Forall_forall. intros row Hin.
  rewrite forallb_forall in Hx. apply Nat.eqb_eq, Hx, list_elem_of_In, Hin.
Qed.

Lemma add_all_keeps_dimension (batches : list (list (list R))) (index : IndexFlatIP) :
  Forall (fun row => length row = d index) (xb index) ->
  d (add_all batches index) = d index /\
  Forall (fun row => length row = d index) (xb (add_all batches index)).
Proof.
  revert index. induction batches as [|x batches IH]; intros index Hinv; simpl.
  - split; [reflexivity | exact Hinv].
  - destruct (add_keeps_dimension x index Hinv) as [Hd Hrows].
    rewrite <- Hd in Hrows. destruct (IH _ Hrows) as [Hd' Hrows'].
    rewrite Hd in Hd', Hrows'. split; assumption.
Qed.

Lemma search_rejects_dimension (tie : Z -> Z -> bool) (index : IndexFlatIP)
    (q : list R) (k : Z) :
  length q <> d index -> search tie index q k = Err DimensionMismatch.
Proof.
  intros Hq. unfold search.
  rewrite (proj2 (Nat.eqb_neq _ _) Hq). reflexivity.
Qed.

(** C4. The index keeps its dimension [d] for every stored vector.  An
    [add] of rows of another length is rejected by the dimension check and
    leaves the index as it was; an accepted [add] appends the rows as they
    are; so after any run of [add] calls on a new index every stored row has
    length [d].  A query of another length is rejected by the same check
    before anything is searched. *)
Theorem dimension_checked_before_use :
  (forall (x : list (list R)) (index : IndexFlatIP),
      Exists (fun row => length row <> d index) x ->
      add x index = (Err DimensionMismatch, index)) /\
  (forall (x : list (list R)) (index : IndexFlatIP),
      Forall (fun row => length row = d index) x ->
      add x index = (Ok tt, {| d := d index; xb := xb index ++ x |})) /\
  (forall (batches : list (list (list R))) (dim : nat),
      d (add_all batches (new dim)) = dim /\
      Forall (fun row => length row = dim) (xb (add_all batches (new dim)))) /\
  (forall (tie : Z -> Z -> bool) (index : IndexFlatIP) (q : list R) (k : Z),
      length q <> d index -> search tie index q k = Err DimensionMismatch).
Proof.
  split; [exact add_rejects|].
  split; [exact add_ok|].
  split; [|exact search_rejects_dimension].
  intros batches dim.
  apply (add_all_keeps_dimension batches (new dim)). constructor.
Qed.

(** A row of three entries offered to an index of dimension 2. *)
Lemma dimension_checked_before_use_witness :
  add [[1; 0; 0]] index1 = (Err DimensionMismatch, index1).
Proof.
  apply (proj1 dimension_checked_before_use [[1; 0; 0]] index1).
  constructor. simpl. lia.
Defined.

End FaissFacts.

(** ** The search-engine cell *)
Module Notebook6Facts.
Import Torch Faiss Notebook6 Samples.
Local Open Scope R_scope.














End Notebook6Facts.

(** ** The frozen encoder *)
Module FineTuneFacts.
Import FineTune.

Section Frame.
Context `{Autograd}.
Implicit Types (h : gmap nat parameter) (s : session) (p : nat).

Lemma freeze_lookup (ps : list nat) h p :
  freeze ps h !! p
  = if decide (p ∈ ps) then set_requires_grad false <$> h !! p else h !! p.
Proof.
  induction ps as [|p0 ps IH]; simpl.
  - destruct (decide (p ∈ [])) as [Hin|_]; [|reflexivity].
    apply elem_of_nil in Hin. contradiction.
  - destruct (decide (p0 = p)) as [->|Hne].
    + rewrite lookup_alter_eq, IH.
      destruct (decide (p ∈ p :: ps)) as [_|Hout]; [|exfalso; apply Hout; left].
      destruct (decide (p ∈ ps)); destruct (h !! p); reflexivity.
    + rewrite lookup_alter_ne by exact Hne. rewrite IH.
      destruct (decide (p ∈ ps)) as [Hin|Hout];
        destruct (decide (p ∈ p0 :: ps)) as [Hin'|Hout']; try reflexivity.
      * exfalso. apply Hout'. right. exact Hin.
      * apply elem_of_cons in Hin' as [->|Hin']; contradiction.
Qed.

Lemma freeze_dom (ps : list nat) h : dom (freeze ps h) = dom h.
Proof.
  apply set_eq. intros p. rewrite !elem_of_dom, freeze_lookup.
  destruct (decide (p ∈ ps)); [|reflexivity].
  rewrite fmap_is_Some. reflexivity.
Qed.

Lemma zero_grad_frame (ps : list nat) h p :
  p ∉ ps -> zero_grad ps h !! p = h !! p.
Proof.
  induction ps as [|p0 ps IH]; simpl; intros Hout; [reflexivity|].
  apply not_elem_of_cons in Hout as [Hne Hout].
  rewrite lookup_alter_ne by congruence. apply IH, Hout.
Qed.

Lemma backward_frame (leaves : list (nat * Tensor)) h p :
  p ∉ map fst leaves -> backward leaves h !! p = h !! p.
Proof.
  induction leaves as [|l leaves IH]; simpl; intros Hout; [reflexivity|].
  apply not_elem_of_cons in Hout as [Hne Hout].
  rewrite lookup_alter_ne by congruence. apply IH, Hout.
Qed.

Lemma step_one_frame (acc : gmap nat parameter * OptState) (p0 p : nat) :
  p <> p0 -> fst (step_one acc p0) !! p = fst acc !! p.
Proof.
  intros Hne. unfold step_one.
  destruct (fst acc !! p0) as [x|]; [|reflexivity].
  destruct (grad x) as [g|]; [|reflexivity].
  destruct (adam_update (snd acc) p0 (data x) g) as [x' os']. simpl.
  apply lookup_insert_ne. congruence.
Qed.

Lemma step_frame (ps : list nat) h (os : OptState) p :
  p ∉ ps -> fst (step ps h os) !! p = h !! p.
Proof.
  unfold step. change h with (fst (h, os)) at 2.
  generalize (h, os). induction ps as [|p0 ps IH]; intros acc Hout; simpl.
  - reflexivity.
  - apply not_elem_of_cons in Hout as [Hne Hout].
    rewrite (IH _ Hout). apply step_one_frame, Hne.
Qed.

Lemma train_step_frame s (batch : Images * Labels) p :
  optimizes_head s ->
  p ∉ param_groups s ->
  store (train_step s batch) !! p = store s !! p /\
  optimizes_head (train_step s batch) /\
  param_groups (train_step s batch) = param_groups s.
Proof.
  intros Hhead Hout. unfold train_step.
  destruct (classifier s) as [w b] eqn:Hcl.
  destruct (store s !! w) as [pw|]; [|auto].
  destruct (store s !! b) as [pb|]; [|auto].
  destruct (head_grad _ _ _ _) as [gw gb].
  destruct (step _ _ _) as [h3 os] eqn:Hstep.
  unfold optimizes_head in *. rewrite Hcl in Hhead. cbn [fst snd] in Hhead.
  cbn [store param_groups classifier fst snd].
  split; [|split; [exact Hhead | reflexivity]].
  change h3 with (fst (h3, os)). rewrite <- Hstep.
  rewrite step_frame by exact Hout.
  rewrite backward_frame.
  - apply zero_grad_frame, Hout.
  - cbn [map fst]. rewrite <- Hhead. exact Hout.
Qed.

Lemma train_epoch_frame (loader : list (Images * Labels)) s p :
  optimizes_head s ->
  p ∉ param_groups s ->
  store (train_epoch loader s) !! p = store s !! p /\
  optimizes_head (train_epoch loader s) /\
  param_groups (train_epoch loader s) = param_groups s.
Proof.
  unfold train_epoch. revert s.
  induction loader as [|batch loader IH]; intros s Hhead Hout; simpl.
  - auto.
  - destruct (train_step_frame s batch p Hhead Hout) as (Hst & Hhead' & Hpg).
    rewrite <- Hpg in Hout.
    destruct (IH _ Hhead' Hout) as (Hst' & Hhead'' & Hpg').
    rewrite Hst', Hpg'. auto.
Qed.

Lemma train_frame (epochs : nat) (loader : list (Images * Labels)) s p :
  optimizes_head s ->
  p ∉ param_groups s ->
  store (train epochs loader s) !! p = store s !! p /\
  optimizes_head (train epochs loader s) /\
  param_groups (train epochs loader s) = param_groups s.
Proof.
  intros Hhead Hout. unfold train.
  induction epochs as [|n IH]; simpl; [auto|].
  destruct IH as (Hst & Hhead' & Hpg).
  rewrite <- Hpg in Hout.
  destruct (train_epoch_frame loader _ p Hhead' Hout) as (Hst' & Hhead'' & Hpg').
  rewrite Hst', Hpg'. auto.
Qed.

Lemma setup_fields h (encoder : list nat) (w0 b0 : Tensor) (os : OptState) :
  let w := fresh (dom (freeze encoder h)) in
  let b := fresh (dom (<[w := fresh_parameter w0]> (freeze encoder h))) in
  (store (setup h encoder w0 b0 os)
   = <[b := fresh_parameter b0]> (<[w := fresh_parameter w0]> (freeze encoder h))) /\
  classifier (setup h encoder w0 b0 os) = (w, b) /\
  param_groups (setup h encoder w0 b0 os) = [w; b].
Proof. cbv zeta. unfold setup, Linear. simpl. auto. Qed.

Lemma setup_keeps_old h (encoder : list nat) (w0 b0 : Tensor) (os : OptState) p :
  is_Some (h !! p) ->
  (p ∉ param_groups (setup h encoder w0 b0 os)) /\
  store (setup h encoder w0 b0 os) !! p = freeze encoder h !! p.
Proof.
  intros Hp.
  destruct (setup_fields h encoder w0 b0 os) as (Hst & _ & Hpg).
  set (w := fresh (dom (freeze encoder h))) in *.
  set (b := fresh (dom (<[w := fresh_parameter w0]> (freeze encoder h)))) in *.
  assert (Hdom : p ∈ dom (freeze encoder h))
    by (rewrite freeze_dom; apply elem_of_dom, Hp).
  assert (Hw : p <> w).
  { intros ->. exact (is_fresh (dom (freeze encoder h)) Hdom). }
  assert (Hb : p <> b).
  { intros Heq.
    pose proof (is_fresh (dom (<[w := fresh_parameter w0]> (freeze encoder h))))
      as Hfresh.
    fold b in Hfresh. apply Hfresh. rewrite <- Heq.
    apply elem_of_dom. rewrite lookup_insert_ne by congruence.
    apply elem_of_dom, Hdom. }
  rewrite Hst, Hpg. split.
  - intros Hin. apply elem_of_cons in Hin as [?|Hin]; [contradiction|].
    apply elem_of_cons in Hin as [?|Hin]; [contradiction|].
    apply elem_of_nil in Hin. exact Hin.
  - rewrite !lookup_insert_ne by congruence. reflexivity.
Qed.

(** C10. After the first cell every parameter of the encoder has
    [requires_grad = False] and is none of the optimizer's parameters;
    training for any number of epochs over any loader leaves each of them
    as it was, with the value it had before the cells ran; and any
    parameter that the loop changes is the classifier's weight or bias. *)
Theorem frozen_encoder_unchanged h (encoder : list nat) (w0 b0 : Tensor)
    (os : OptState) (epochs : nat) (loader : list (Images * Labels)) :
  Forall (fun p => is_Some (h !! p)) encoder ->
  let s := setup h encoder w0 b0 os in
  let s' := train epochs loader s in
  Forall (fun p =>
            requires_grad <$> store s !! p = Some false /\
            (p ∉ param_groups s) /\
            store s' !! p = store s !! p /\
            data <$> store s' !! p = data <$> h !! p) encoder /\
  (forall p, p ∉ [fst (classifier s); snd (classifier s)] ->
             store s' !! p = store s !! p).
Proof.
  intros Henc s s'.
  assert (Hhead : optimizes_head s).
  { unfold optimizes_head, s.
    destruct (setup_fields h encoder w0 b0 os) as (_ & Hcl & Hpg).
    rewrite Hcl, Hpg. reflexivity. }
  split.
  - apply Forall_forall. intros p Hin.
    rewrite Forall_forall in Henc. specialize (Henc p Hin).
    destruct (setup_keeps_old h encoder w0 b0 os p Henc) as [Hout Hst].
    fold s in Hout, Hst.
    destruct (train_frame epochs loader s p Hhead Hout) as (Hsame & _ & _).
    fold s' in Hsame.
    assert (Hfrozen : store s !! p = set_requires_grad false <$> h !! p).
    { rewrite Hst, freeze_lookup.
      destruct (decide (p ∈ encoder)); [reflexivity | contradiction]. }
    destruct Henc as [x Hx].
    rewrite Hsame, Hfrozen, Hx. simpl. auto.
  - intros p Hout. unfold optimizes_head in Hhead. rewrite <- Hhead in Hout.
    destruct (train_frame epochs loader s p Hhead Hout) as (Hsame & _ & _).
    exact Hsame.
Qed.
End Frame.

#[local] Existing Instance ToyTraining.toy.

(** The scalar instance: two epochs over two batches leave the encoder's
    weights 3 and 4 in place. *)
Lemma frozen_encoder_unchanged_witness :
  let s := @setup ToyTraining.toy ToyTraining.encoder_store
             ToyTraining.encoder_ids 0%Z 0%Z 0%nat in
  let s' := @train ToyTraining.toy 2 ToyTraining.loader s in
  Forall (fun p =>
            requires_grad <$> store s !! p = Some false /\
            (p ∉ param_groups s) /\
            store s' !! p = store s !! p /\
            data <$> store s' !! p = data <$> ToyTraining.encoder_store !! p)
         ToyTraining.encoder_ids /\
  (forall p, p ∉ [fst (classifier s); snd (classifier s)] ->
             store s' !! p = store s !! p).
Proof.
  apply (@frozen_encoder_unchanged ToyTraining.toy ToyTraining.encoder_store
           ToyTraining.encoder_ids 0%Z 0%Z 0%nat 2 ToyTraining.loader).
  repeat constructor; eexists; reflexivity.
Defined.

End FineTuneFacts.

(** ** Appending to the index *)
Module SearchEngineFacts.
Import Torch TorchOps Faiss Notebook6.
Local Open Scope R_scope.

Lemma head_is_best (e : Z * R) (l : list (Z * R)) (a : Z * R) :
  descending (e :: l) -> In a (e :: l) -> snd a <= snd e.
Proof.
  unfold descending. intros Hs [<-|Hin]; [lra|].
  inversion Hs as [|? ? _ Hall]; subst.
  rewrite Forall_forall in Hall. apply Hall, list_elem_of_In, Hin.
Qed.

(** [index.add] only appends: the vectors stored before keep their labels
    and their scores against any query, and the rows of the new array get
    the labels that follow, in the order of the array. *)
Lemma add_appends_labels (x : list (list R)) (index index' : IndexFlatIP)
    (q : list R) :
  add x index = (Ok tt, index') ->
  ntotal index' = (ntotal index + length x)%nat /\
  d index' = d index /\
  scores index' q
  = scores index q
    ++ imap (fun j v => (Z.of_nat (ntotal index + j), dot q v)) x.
Proof.
  unfold add. destruct (forallb _ x); [|discriminate].
  intros Hok. injection Hok as <-.
  unfold ntotal, scores. simpl. rewrite length_app.
  split; [reflexivity|]. split; [reflexivity|].
  rewrite imap_app. reflexivity.
Qed.

Lemma add_appends_labels_witness :
  ntotal Samples.index3 = (ntotal Samples.index1 + length [[0; 1]; [1; 1]])%nat /\
  d Samples.index3 = d Samples.index1 /\
  scores Samples.index3 Samples.query10
  = scores Samples.index1 Samples.query10
    ++ imap (fun j v => (Z.of_nat (ntotal Samples.index1 + j),
                         dot Samples.query10 v)) [[0; 1]; [1; 1]].
Proof.
  apply (add_appends_labels [[0; 1]; [1; 1]] Samples.index1 Samples.index3
           Samples.query10).
  reflexivity.
Defined.

End SearchEngineFacts.

(** ** The figures of an epoch *)
Module MetricsFacts.
Import Torch TorchOps Metrics.
Local Open Scope R_scope.






End MetricsFacts.

(** ** The masked-autoencoder cell *)
Module Notebook4Facts.
Import Notebook4.
Local Open Scope Z_scope.

(** X16. The patches counted by [num_patches] fit into the image: for a
    positive patch size they cover no more than the image's pixels, and all
    of them exactly when the patch size divides the image size.  A patch
    size of 0 is a division by zero. *)
Theorem num_patches_fit :
  (forall image_size, num_patches image_size 0 = Err DivisionByZero) /\
  (forall image_size patch_size,
      0 <= image_size -> 0 < patch_size ->
      exists n, num_patches image_size patch_size = Ok n /\
                0 <= n /\
                n * patch_size ^ 2 <= image_size ^ 2 /\
                (n * patch_size ^ 2 = image_size ^ 2 <-> (patch_size | image_size))).
Proof.
  split; [reflexivity|].
  intros image_size patch_size Hi Hp. unfold num_patches, floordiv.
  rewrite (proj2 (Z.eqb_neq patch_size 0)) by lia. simpl.
  eexists. split; [reflexivity|].
  pose proof (Z.div_mod image_size patch_size ltac:(lia)) as Hdm.
  pose proof (Z.mod_pos_bound image_size patch_size Hp) as Hr.
  pose proof (Z.div_pos image_size patch_size Hi Hp) as Hq.
  set (q := image_size / patch_size) in *.
  set (r := image_size mod patch_size) in *.
  split; [nia|]. split; [nia|].
  split.
  - intros Heq. apply Z.mod_divide; [lia|]. fold r. nia.
  - intros Hdiv. apply Z.mod_divide in Hdiv; [|lia]. fold r in Hdiv. nia.
Qed.

Lemma num_patches_fit_witness :
  exists n, num_patches 224 16 = Ok n /\
            0 <= n /\
            n * 16 ^ 2 <= 224 ^ 2 /\
            (n * 16 ^ 2 = 224 ^ 2 <-> (16 | 224)).
Proof.
  apply (proj2 num_patches_fit 224 16); lia.
Defined.

Lemma masked_replicate (c m : nat) :
  masked (random_mask (replicate c 0%R ++ replicate m (3 / 4)%R)) = c.
Proof.
  unfold masked, random_mask. induction c as [|c IH]; simpl.
  - induction m as [|m IHm]; simpl; [reflexivity|].
    destruct (Rlt_dec (3 / 4) (3 / 4)) as [H|_]; [lra|].
    destruct (Bool.bool_dec false true); [discriminate | exact IHm].
  - destruct (Rlt_dec 0 (3 / 4)) as [_|H]; [|lra].
    destruct (Bool.bool_dec true true); [f_equal; exact IH | contradiction].
Qed.

(** X17. The mask has one entry per patch, and how many patches it masks is up
    to the samples: for every number [c] of the [n] patches there are
    samples of [torch.rand], all in [0, 1), that mask exactly [c]. *)
Theorem random_mask_count_is_free (n c : nat) :
  (c <= n)%nat ->
  exists samples,
    length samples = n /\
    Forall (fun u => (0 <= u < 1)%R) samples /\
    length (random_mask samples) = n /\
    masked (random_mask samples) = c.
Proof.
  intros Hc. exists (replicate c 0%R ++ replicate (n - c) (3 / 4)%R).
  assert (Hlen : length (replicate c 0%R ++ replicate (n - c) (3 / 4)%R) = n)
    by (rewrite length_app, !length_replicate; lia).
  split; [exact Hlen|]. split; [|split].
  - apply Forall_app. split; apply Forall_replicate; lra.
  - unfold random_mask. rewrite length_map. exact Hlen.
  - apply masked_replicate.
Qed.

Lemma random_mask_count_is_free_witness :
  exists samples,
    length samples = 196%nat /\
    Forall (fun u => (0 <= u < 1)%R) samples /\
    length (random_mask samples) = 196%nat /\
    masked (random_mask samples) = 0%nat.
Proof.
  apply (random_mask_count_is_free 196 0). lia.
Defined.

End Notebook4Facts.

(** ** What a training step does to the head *)
Module TrainingFacts.
Import FineTune.

Section Steps.
Context `{Autograd}.
Implicit Types (h : gmap nat parameter) (s : session) (p : nat).

Lemma omap_agree {A B : Type} (f g : A -> option B) (l : list A) :
  Forall (fun a => f a = g a) l -> omap f l = omap g l.
Proof.
  induction 1 as [|a l Ha _ IH]; csimpl; [reflexivity|].
  rewrite Ha, IH. reflexivity.
Qed.

Lemma train_step_encoder s (batch : Images * Labels) :
  image_encoder (train_step s batch) = image_encoder s.
Proof.
  unfold train_step. destruct (classifier s) as [w b].
  destruct (store s !! w); [|reflexivity].
  destruct (store s !! b); [|reflexivity].
  destruct (head_grad _ _ _ _). destruct (step _ _ _). reflexivity.
Qed.

Lemma train_epoch_encoder (loader : list (Images * Labels)) s :
  image_encoder (train_epoch loader s) = image_encoder s.
Proof.
  unfold train_epoch. revert s.
  induction loader as [|batch loader IH]; intros s; simpl; [reflexivity|].
  rewrite IH. apply train_step_encoder.
Qed.

Lemma train_encoder (epochs : nat) (loader : list (Images * Labels)) s :
  image_encoder (train epochs loader s) = image_encoder s.
Proof.
  unfold train. induction epochs as [|n IH]; simpl; [reflexivity|].
  rewrite train_epoch_encoder. exact IH.
Qed.

(** X14. The features of an image are the same in every epoch: after any
    training the encoder computes from the weights it had before the
    cells ran, so [image_encoder(images)] can be computed once and kept. *)
Theorem encoder_features_constant h (encoder : list nat) (w0 b0 : Tensor)
    (os : OptState) (epochs : nat) (loader : list (Images * Labels))
    (images : Images) :
  Forall (fun p => is_Some (h !! p)) encoder ->
  let s' := train epochs loader (setup h encoder w0 b0 os) in
  encoder_forward (omap (fun p => data <$> store s' !! p) (image_encoder s')) images
  = encoder_forward (omap (fun p => data <$> h !! p) encoder) images.
Proof.
  intros Henc s'. unfold s'. rewrite train_encoder.
  assert (Hfield : image_encoder (setup h encoder w0 b0 os) = encoder)
    by reflexivity.
  rewrite Hfield. f_equal. apply omap_agree.
  apply Forall_forall. intros p Hin.
  rewrite Forall_forall in Henc. specialize (Henc p Hin).
  destruct (FineTuneFacts.setup_keeps_old h encoder w0 b0 os p Henc) as [Hout Hst].
  assert (Hhead : optimizes_head (setup h encoder w0 b0 os)).
  { unfold optimizes_head.
    destruct (FineTuneFacts.setup_fields h encoder w0 b0 os) as (_ & Hcl & Hpg).
    rewrite Hcl, Hpg. reflexivity. }
  destruct (FineTuneFacts.train_frame epochs loader _ p Hhead Hout) as (Hsame & _ & _).
  rewrite Hsame, Hst, FineTuneFacts.freeze_lookup.
  destruct (decide (p ∈ encoder)); [|reflexivity].
  destruct (h !! p); reflexivity.
Qed.

(** X15. A training step gives both parameters of the head one Adam update, the
    weight first, each on the gradient of the loss of this batch alone:
    [zero_grad] runs before [backward], so a gradient left in [.grad] by
    anything earlier takes no part. *)
Theorem train_step_uses_batch_gradient s (batch : Images * Labels)
    (w b : nat) (pw pb : parameter) (gw gb xw xb : Tensor) (os1 os2 : OptState) :
  classifier s = (w, b) -> param_groups s = [w; b] -> w <> b ->
  store s !! w = Some pw -> store s !! b = Some pb ->
  requires_grad pw = true -> requires_grad pb = true ->
  head_grad (data pw) (data pb)
    (encoder_forward (omap (fun p => data <$> store s !! p) (image_encoder s))
       (fst batch))
    (snd batch) = (gw, gb) ->
  adam_update (opt_state s) w (data pw) gw = (xw, os1) ->
  adam_update os1 b (data pb) gb = (xb, os2) ->
  store (train_step s batch) !! w
  = Some {| data := xw; requires_grad := true; grad := Some gw |} /\
  store (train_step s batch) !! b
  = Some {| data := xb; requires_grad := true; grad := Some gb |} /\
  opt_state (train_step s batch) = os2.
Proof.
  intros Hcl Hpg Hwb Hw Hb Hrw Hrb Hgrad Hadam1 Hadam2.
  assert (Hstep : exists h2,
             train_step s batch
             = {| store :=
                    <[b := {| data := xb; requires_grad := true; grad := Some gb |}]>
                      (<[w := {| data := xw; requires_grad := true; grad := Some gw |}]> h2);
                  image_encoder := image_encoder s;
                  classifier := classifier s;
                  param_groups := param_groups s;
                  opt_state := os2 |}).
  { eexists. unfold train_step. rewrite Hcl, Hw, Hb, Hgrad, Hpg.
    unfold step, zero_grad, backward. simpl.
    unfold step_one at 2. simpl.
    rewrite lookup_alter_eq, (lookup_alter_ne _ _ b w) by congruence.
    rewrite lookup_alter_eq, (lookup_alter_ne _ _ b w) by congruence.
    rewrite Hw. simpl. unfold accumulate at 1. simpl. rewrite Hrw. simpl.
    rewrite Hadam1.
    unfold step_one. simpl.
    rewrite lookup_insert_ne by congruence.
    rewrite (lookup_alter_ne _ _ w b) by congruence.
    rewrite lookup_alter_eq.
    rewrite (lookup_alter_ne _ _ w b) by congruence.
    rewrite lookup_alter_eq, Hb. simpl.
    unfold accumulate at 1. simpl. rewrite Hrb. simpl.
    rewrite Hadam2. reflexivity. }
  destruct Hstep as [h2 ->]. simpl.
  rewrite lookup_insert_eq, lookup_insert_ne, lookup_insert_eq by congruence.
  auto.
Qed.
End Steps.

#[local] Existing Instance ToyTraining.toy.

Lemma encoder_features_constant_witness :
  let s' := @train ToyTraining.toy 2 ToyTraining.loader
              (setup ToyTraining.encoder_store ToyTraining.encoder_ids 0%Z 0%Z 0%nat) in
  encoder_forward (omap (fun p => data <$> store s' !! p) (image_encoder s')) 5%Z
  = encoder_forward
      (omap (fun p => data <$> ToyTraining.encoder_store !! p) ToyTraining.encoder_ids)
      5%Z.
Proof.
  apply (@encoder_features_constant ToyTraining.toy ToyTraining.encoder_store
           ToyTraining.encoder_ids 0%Z 0%Z 0%nat 2 ToyTraining.loader 5%Z).
  repeat constructor; eexists; reflexivity.
Defined.

Lemma train_step_uses_batch_gradient_witness :
  let s := @setup ToyTraining.toy ToyTraining.encoder_store
             ToyTraining.encoder_ids 0%Z 0%Z 0%nat in
  store (@train_step ToyTraining.toy s (1%Z, 2%Z)) !! 2%nat
  = Some {| data := 14%Z; requires_grad := true; grad := Some (-14)%Z |} /\
  store (@train_step ToyTraining.toy s (1%Z, 2%Z)) !! 3%nat
  = Some {| data := 2%Z; requires_grad := true; grad := Some (-2)%Z |} /\
  opt_state (@train_step ToyTraining.toy s (1%Z, 2%Z)) = 2%nat.
Proof.
  apply (@train_step_uses_batch_gradient ToyTraining.toy
           (@setup ToyTraining.toy ToyTraining.encoder_store
              ToyTraining.encoder_ids 0%Z 0%Z 0%nat)
           (1%Z, 2%Z) 2%nat 3%nat
           (@fresh_parameter ToyTraining.toy 0%Z)
           (@fresh_parameter ToyTraining.toy 0%Z)
           (-14)%Z (-2)%Z 14%Z 2%Z 1%nat 2%nat);
    try reflexivity.
  lia.
Defined.

End TrainingFacts.

(** ** The answer of the cell's own search *)
Module Top5Facts.
Import Torch Faiss Notebook6.
Local Open Scope R_scope.






End Top5Facts.

(** ** Growing the index *)
Module AddFacts.
Import Torch Faiss.
Local Open Scope R_scope.

Lemma first_slot (tie : Z -> Z -> bool) (index : IndexFlatIP) (q : list R)
    (k : nat) :
  xb index <> [] -> (1 <= k)%nat ->
  exists e r, ranked tie (scores index q) = e :: r /\
              map snd (slots tie index q k) !! 0%nat = Some (snd e).
Proof.
  intros Hne Hk.
  destruct (ranked tie (scores index q)) as [|e r] eqn:Hr.
  - exfalso. apply Hne. apply length_zero_iff_nil.
    pose proof (FaissFacts.length_ranked tie (scores index q)) as Hlen.
    rewrite Hr, FaissFacts.length_scores in Hlen. unfold ntotal in Hlen.
    simpl in Hlen. lia.
  - exists e, r. split; [reflexivity|].
    unfold slots. rewrite Hr. destruct k as [|k]; [lia|]. reflexivity.
Qed.

(** X10. Adding vectors to the index never lowers the best score of a query:
    whatever was the best neighbour before is still stored, under its old
    label, so the first entry of the answer after the [add] scores at least
    as much as the first entry before it. *)
Theorem add_never_lowers_best_score (tie : Z -> Z -> bool)
    (x : list (list R)) (index index' : IndexFlatIP) (q : list R) (k : Z) :
  add x index = (Ok tt, index') -> xb index <> [] ->
  length q = d index -> (1 <= k)%Z ->
  exists D I D' I' s s',
    search tie index q k = Ok (D, I) /\
    search tie index' q k = Ok (D', I') /\
    D !! 0%nat = Some s /\ D' !! 0%nat = Some s' /\ s <= s'.
Proof.
  intros Hadd Hne Hq Hk.
  destruct (SearchEngineFacts.add_appends_labels x index index' q Hadd)
    as (Hn & Hd & Hscores).
  assert (Hne' : xb index' <> []).
  { intros Hnil. apply Hne. apply length_zero_iff_nil.
    unfold ntotal in Hn. rewrite Hnil in Hn. simpl in Hn. lia. }
  destruct (first_slot tie index q (Z.to_nat k) Hne ltac:(lia)) as (e & r & Hr & He).
  destruct (first_slot tie index' q (Z.to_nat k) Hne' ltac:(lia))
    as (e' & r' & Hr' & He').
  exists (map snd (slots tie index q (Z.to_nat k))),
         (map fst (slots tie index q (Z.to_nat k))),
         (map snd (slots tie index' q (Z.to_nat k))),
         (map fst (slots tie index' q (Z.to_nat k))),
         (snd e), (snd e').
  split; [apply FaissFacts.search_ok; assumption|].
  split; [apply FaissFacts.search_ok; [congruence | assumption]|].
  split; [exact He|]. split; [exact He'|].
  assert (Hin : In e (e' :: r')).
  { rewrite <- Hr'. apply list_elem_of_In.
    rewrite (FaissFacts.ranked_perm tie), Hscores.
    apply elem_of_app. left.
    rewrite <- (FaissFacts.ranked_perm tie (scores index q)), Hr. left. }
  apply (SearchEngineFacts.head_is_best e' r' e); [|exact Hin].
  rewrite <- Hr'. apply FaissFacts.ranked_descending.
Qed.

Lemma add_never_lowers_best_score_witness :
  exists D I D' I' s s',
    search Samples.lower_first Samples.index1 Samples.query10 2 = Ok (D, I) /\
    search Samples.lower_first Samples.index3 Samples.query10 2 = Ok (D', I') /\
    D !! 0%nat = Some s /\ D' !! 0%nat = Some s' /\ s <= s'.
Proof.
  apply (add_never_lowers_best_score Samples.lower_first [[0; 1]; [1; 1]]
           Samples.index1 Samples.index3 Samples.query10 2).
  - reflexivity.
  - discriminate.
  - reflexivity.
  - lia.
Defined.

End AddFacts.
